(** * src/core/error_handling.h: the EM_JS wrappers and the failure macros

    The header defines two families of macros.

    - [EM_JS_REF] and [EM_JS_NUM] wrap the JavaScript body of an [EM_JS]
      function in a [try]/[catch] and add a last statement after it.
    - [FAIL], [FAIL_IF_NULL], [FAIL_IF_MINUS_ONE] and [FAIL_IF_ERR_OCCURRED]
      are C statements that jump to the label [finally] of the enclosing
      function.

    A macro is a program template, so each one is embedded as a combinator
    over the semantics of its arguments: a JavaScript body is a function from
    a state to a completion and a state, a C argument expression is a
    function from a state to a value and a state.  Module [Cpp] keeps the
    replacement list of [FAIL] as tokens, for what depends on the text of the
    macro and not on its meaning. *)

From Stdlib Require Import ZArith String List Lia.
From stdpp Require Import base strings gmap list pretty.

Local Open Scope Z_scope.
Local Open Scope string_scope.

(* ===================================================================== *)
(** ** JavaScript side: the EM_JS wrappers (lines 38 to 66)              *)
(* ===================================================================== *)

Module JS.

(** The JavaScript values the wrappers create or pass on. [Error m] is the
    object made by [new Error(m)]. *)
Inductive value : Type :=
| Undefined
| Number (n : Z)
| Str (s : string)
| Error (message : string)
| Object (id : positive).

(** How a statement ends: it runs to its end, it returns, or it throws. *)
Inductive completion : Type :=
| Normal
| Return (v : value)
| Throw (e : value).

(** What the caller of a function sees. *)
Inductive result : Type :=
| Returned (v : value)
| Raised (e : value).

(** The state a body can read and write: the global object, and the
    exceptions handed to the embedded interpreter so far. *)
Record state : Type := mkState {
  globals : gmap string value;
  handed_off : list value
}.

(** A statement, and so a body in braces, maps a state to the way it ends
    and the state it leaves.  The directive ["use strict";] the wrappers
    start with is no statement and has no entry here: a body is taken as it
    runs inside a wrapper, in strict mode and with the macros in it
    expanded (lines 24 to 30), not as it would run on its own. *)
Definition stmt : Type := state -> completion * state.

(** [return v;] *)
Definition return_ (v : value) : stmt := fun s => (Return v, s).

(** [throw e;] *)
Definition throw (e : value) : stmt := fun s => (Throw e, s).

(** [s1 s2]: the second statement runs only when the first runs to its
    end. *)
Definition seq (s1 s2 : stmt) : stmt := fun s =>
  match s1 s with
  | (Normal, s') => s2 s'
  | (Return v, s') => (Return v, s')
  | (Throw e, s') => (Throw e, s')
  end.

(** [try body catch (e) { handler }] *)
Definition try_catch (body : stmt) (handler : value -> stmt) : stmt := fun s =>
  match body s with
  | (Throw e, s') => handler e s'
  | other => other
  end.

(** [globalThis.name = v;]: a store to a property of the global object,
    which strict mode allows whether the property exists or not. *)
Definition assign (name : string) (v : value) : stmt := fun s =>
  (Normal, mkState (<[name := v]> (globals s)) (handed_off s)).

(** Calling a function whose body is [body]: a body that runs to its end
    makes the call return [undefined]. *)
Definition call (body : stmt) (s : state) : result * state :=
  match body s with
  | (Normal, s') => (Returned Undefined, s')
  | (Return v, s') => (Returned v, s')
  | (Throw e, s') => (Raised e, s')
  end.

Declare Scope js_scope.
Delimit Scope js_scope with js.
Notation "s1 ;; s2" := (seq s1 s2)
  (at level 100, s2 at level 200, right associativity) : js_scope.
Local Open Scope js_scope.

Section Wrappers.

(** [Module.handle_js_error] is defined outside this header: the wrappers
    are stated for any implementation of it. *)
Variable handle_js_error : value -> stmt.

(** The [catch (e) { ... }] block of [EM_JS_REF], lines 44 to 49. *)
Definition catch_REF (e : value) : stmt :=
  throw e ;;
  handle_js_error e ;;
  return_ (Number 0).

(** The [catch (e) { ... }] block of [EM_JS_NUM], lines 58 to 63. *)
Definition catch_NUM (e : value) : stmt :=
  throw e ;;
  handle_js_error e ;;
  return_ (Number (-1)).

(** The function body [EM_JS_REF] generates around [body]. *)
Definition EM_JS_REF (body : stmt) : stmt :=
  try_catch body catch_REF ;;
  throw (Error "Assertion error: control reached end of function without return").

(** The function body [EM_JS_NUM] generates around [body]. *)
Definition EM_JS_NUM (body : stmt) : stmt :=
  try_catch body catch_NUM ;;
  return_ (Number 0).

End Wrappers.

(** Modelled from the spec: [Module.handle_js_error] is not in this header;
    the spec calls it the hand-off of a caught foreign exception to the
    embedded interpreter.  Here it records the exception. *)
Definition record_hand_off (e : value) : stmt := fun s =>
  (Normal, mkState (globals s) (handed_off s ++ [e])).

Definition empty_state : state := mkState ∅ [].

(** *** Concrete bodies, for the examples *)

(** [{ throw new Error("boom"); }] *)
Definition body_boom : stmt := throw (Error "boom").

(** [{ globalThis.done = 1; }] *)
Definition body_store : stmt := assign "done" (Number 1).

(** [{ globalThis.done = 1; throw "late"; }] *)
Definition body_store_then_throw : stmt :=
  assign "done" (Number 1) ;; throw (Str "late").

Definition state_done : state := mkState (<["done" := Number 1]> ∅) [].

End JS.

(* ===================================================================== *)
(** ** C side: the failure macros (lines 68 to 127)                      *)
(* ===================================================================== *)

Module C.

(** A pointer is an address; [NULL] is address 0. *)
Definition pointer : Type := Z.
Definition NULL : pointer := 0.

(** [typedef int errcode;] *)
Definition errcode : Type := Z.

(** How a statement ends: control goes on to the next statement, or jumps
    to a label of the enclosing function. *)
Inductive outcome : Type :=
| Next
| Goto (label : string).

(** The state the macros can touch: the interpreter's error indicator (the
    pointer [PyErr_Occurred] returns), the messages given to [log_error],
    the blocks of the C heap, and the program's variables. *)
Record state : Type := mkState {
  err_indicator : pointer;
  console : list string;
  heap : gmap Z string;
  vars : gmap string Z
}.

Definition expr (A : Type) : Type := state -> A * state.
Definition stmt : Type := state -> outcome * state.

(** An argument without side effects: a constant or the value of a
    variable already read. *)
Definition const {A : Type} (a : A) : expr A := fun s => (a, s).

(** [goto label;] *)
Definition goto (label : string) : stmt := fun s => (Goto label, s).

(** [s1 s2] *)
Definition seq (s1 s2 : stmt) : stmt := fun s =>
  match s1 s with
  | (Next, s') => s2 s'
  | (Goto l, s') => (Goto l, s')
  end.

(** An expression statement [e;]: the value is dropped. *)
Definition eval {A : Type} (e : expr A) : stmt := fun s => (Next, snd (e s)).

(** [x = e; rest], with [x] a local of the block. *)
Definition bind {A : Type} (e : expr A) (rest : A -> stmt) : stmt := fun s =>
  let (a, s') := e s in rest a s'.

(** [if (cond) { then_ }], the condition evaluated once. *)
Definition if_ (cond : expr bool) (then_ : stmt) : stmt := fun s =>
  let (c, s') := cond s in
  if c then then_ s' else (Next, s').

(** [do { body } while (0)]: the body runs once, the condition [0] ends the
    loop; a jump out of the body leaves it. *)
Definition do_while_0 (body : stmt) : stmt := fun s =>
  match body s with
  | (Next, s') => (Next, s')
  | (Goto l, s') => (Goto l, s')
  end.

(** [e == NULL] *)
Definition eq_NULL (e : expr pointer) : expr bool := fun s =>
  let (p, s') := e s in (Z.eqb p NULL, s').

(** [e != 0] *)
Definition ne_0 (e : expr Z) : expr bool := fun s =>
  let (n, s') := e s in (negb (Z.eqb n 0), s').

(** A pointer used as a condition is true when it is not null. *)
Definition truth (e : expr pointer) : expr bool := fun s =>
  let (p, s') := e s in (negb (Z.eqb p NULL), s').

(** [PyErr_Occurred()] of the CPython API: reads the error indicator. *)
Definition PyErr_Occurred : expr pointer := fun s => (err_indicator s, s).

(** The place a macro is expanded at: [__LINE__], [__func__], [__FILE__]. *)
Record site : Type := mkSite {
  __LINE__ : Z;
  __func__ : string;
  __FILE__ : string
}.

(** ["Raised exception on line %d in func %s, file %s\n"] filled in. *)
Definition message (at_ : site) : string :=
  "Raised exception on line " +:+ pretty (__LINE__ at_) +:+
  " in func " +:+ __func__ at_ +:+
  ", file " +:+ __FILE__ at_ +:+
  String (Ascii.ascii_of_nat 10) "".

(** [malloc] gives an address that is not null and not in use. *)
Definition malloc_address (h : gmap Z string) : pointer :=
  fresh ({[ NULL ]} ∪ dom h).

(** [asprintf(&msg, fmt, ...)]: a new block holding the text; the local
    [msg] receives its address.  The allocation is taken to succeed. *)
Definition asprintf (text : string) : expr pointer := fun s =>
  let p := malloc_address (heap s) in
  (p, mkState (err_indicator s) (console s) (<[p := text]> (heap s)) (vars s)).

(** [free(p)] *)
Definition free (p : pointer) : stmt := fun s =>
  (Next, mkState (err_indicator s) (console s) (delete p (heap s)) (vars s)).

(** The C string at [p]; a pointer to no block reads as the empty string. *)
Definition string_at (p : pointer) (s : state) : string :=
  default "" (heap s !! p).

Section Macros.

(** Modelled from the spec: [log_error] is only declared in this header.
    The spec says it emits the message to an external error channel and
    returns a status the source does not specify: the status is a
    parameter. *)
Variable log_error_status : string -> errcode.

Definition log_error (msg : pointer) : expr errcode := fun s =>
  let text := string_at msg s in
  (log_error_status text,
   mkState (err_indicator s) (console s ++ [text]) (heap s) (vars s)).

(** Whether the build defines [DEBUG_F]. *)
Variable DEBUG_F : bool.

(** The place of the expansion. *)
Variable at_ : site.

(** [FAIL()], lines 90 to 106.  Without [DEBUG_F] it is [goto finally].
    With [DEBUG_F] the branch below is the statements of lines 93 to 101
    in order, read with the [;] that line 101 leaves out after
    [goto finally]: as the header stands that build does not compile
    (module [Cpp]), so only the branch without [DEBUG_F] is code that
    runs. *)
Definition FAIL : stmt :=
  if DEBUG_F then
    do_while_0
      (bind (asprintf (message at_)) (fun msg =>
       seq (eval (log_error msg))
      (seq (free msg)
           (goto "finally"))))
  else
    goto "finally".

(** [FAIL_IF_NULL(ref)], lines 108 to 113.  [ref] is the meaning of an
    argument that binds at least as tightly as [==] (a name, a constant, a
    call, an expression in parentheses); line 110 puts the argument in
    without parentheses, and module [Cond] reads the text for the
    others. *)
Definition FAIL_IF_NULL (ref : expr pointer) : stmt :=
  do_while_0 (if_ (eq_NULL ref) FAIL).

(** [FAIL_IF_MINUS_ONE(num)], lines 115 to 120.  [num] is the meaning of
    an argument that binds at least as tightly as [!=]; line 117 puts the
    argument in without parentheses. *)
Definition FAIL_IF_MINUS_ONE (num : expr Z) : stmt :=
  do_while_0 (if_ (ne_0 num) FAIL).

(** [FAIL_IF_ERR_OCCURRED()], lines 122 to 127. *)
Definition FAIL_IF_ERR_OCCURRED : stmt :=
  do_while_0 (if_ (truth PyErr_Occurred) FAIL).

End Macros.

(** A function written to the convention of the header:
    [{ body  finally: cleanup }].  The cleanup runs when the body ends and
    when it jumps to [finally]. *)
Definition with_finally (body cleanup : stmt) : stmt := fun s =>
  match body s with
  | (Next, s') => cleanup s'
  | (Goto l, s') => if String.eqb l "finally" then cleanup s' else (Goto l, s')
  end.

(** The state [s] with [lines] added to what [log_error] was given. *)
Definition logged (lines : list string) (s : state) : state :=
  mkState (err_indicator s) (console s ++ lines) (heap s) (vars s).

(** *** Concrete inputs, for the examples *)

Definition empty_state : state := mkState NULL [] ∅ ∅.

(** A state with the error indicator set and one block in use. *)
Definition state_err : state :=
  mkState 4096 [] (<[8 := "spam"]> ∅) (<["rc" := 1]> ∅).

Definition site_42 : site := mkSite 42 "hiwire_get" "hiwire.c".

Definition status_0 : string -> errcode := fun _ => 0.

End C.

(* ===================================================================== *)
(** ** The text of [FAIL]: replacement lists as tokens                   *)
(* ===================================================================== *)

Module Cpp.

Inductive token : Type :=
| KW_do | KW_while | KW_char | KW_goto
| IDENT (name : string)
| STRING (text : string)
| INT (n : Z)
| LBRACE | RBRACE | LPAREN | RPAREN
| SEMI | COMMA | AMP | STAR.

(** The replacement list of [FAIL()]: lines 91 to 102 when [DEBUG_F] is
    defined, line 105 when it is not. *)
Definition FAIL (DEBUG_F : bool) : list token :=
  if DEBUG_F then
    [ KW_do; LBRACE;
        KW_char; STAR; IDENT "msg"; SEMI;
        IDENT "asprintf"; LPAREN; AMP; IDENT "msg"; COMMA;
          STRING "Raised exception on line %d in func %s, file %s\n"; COMMA;
          IDENT "__LINE__"; COMMA;
          IDENT "__func__"; COMMA;
          IDENT "__FILE__"; RPAREN; SEMI;
        IDENT "log_error"; LPAREN; IDENT "msg"; RPAREN; SEMI;
        IDENT "free"; LPAREN; IDENT "msg"; RPAREN; SEMI;
        KW_goto; IDENT "finally";
      RBRACE; KW_while; LPAREN; INT 0; RPAREN ]
  else
    [ KW_goto; IDENT "finally" ].

(** The statement [FAIL();] as the compiler reads it. *)
Definition FAIL_statement (DEBUG_F : bool) : list token :=
  FAIL DEBUG_F ++ [ SEMI ].

(** A jump statement of C is [goto identifier ;].  The check holds when
    each [goto] of the text is followed by a label and a semicolon. *)
Fixpoint goto_statements_complete (ts : list token) : bool :=
  match ts with
  | [] => true
  | KW_goto :: rest =>
      match rest with
      | IDENT _ :: SEMI :: rest' => goto_statements_complete rest'
      | _ => false
      end
  | _ :: rest => goto_statements_complete rest
  end.

(** What follows the label of the first [goto] of the text. *)
Fixpoint after_goto_label (ts : list token) : option token :=
  match ts with
  | [] => None
  | KW_goto :: IDENT _ :: t :: _ => Some t
  | KW_goto :: _ => None
  | _ :: rest => after_goto_label rest
  end.

End Cpp.

(* ===================================================================== *)
(** ** The conditions of the guarded macros, as text                     *)
(* ===================================================================== *)

Module Cond.

(** The tokens of a condition: names, integer constants, [NULL], [==],
    [!=], the binary [&], and parentheses. *)
Inductive token : Type :=
| ID (name : string)
| INT (n : Z)
| KW_NULL
| EQEQ | NOTEQ | AMP
| LPAREN | RPAREN.

(** The condition of [FAIL_IF_NULL(ref)], line 110: [ref == NULL], the
    tokens of the argument put in place of [ref] as they are. *)
Definition FAIL_IF_NULL_condition (ref : list token) : list token :=
  ref ++ [ EQEQ; KW_NULL ].

(** The condition of [FAIL_IF_MINUS_ONE(num)], line 117: [num != 0]. *)
Definition FAIL_IF_MINUS_ONE_condition (num : list token) : list token :=
  num ++ [ NOTEQ; INT 0 ].

Inductive cexpr : Type :=
| Var (name : string)
| Lit (n : Z)
| Eq (a b : cexpr)
| Ne (a b : cexpr)
| BitAnd (a b : cexpr).

(** The grammar of C for these tokens: a primary expression is a name, a
    constant or an expression in parentheses; [==] and [!=] group to the
    left and bind tighter than [&], which groups to the left too. *)
Fixpoint primary (fuel : nat) (ts : list token) : option (cexpr * list token) :=
  match fuel with
  | O => None
  | S fuel =>
      match ts with
      | ID x :: rest => Some (Var x, rest)
      | INT n :: rest => Some (Lit n, rest)
      | KW_NULL :: rest => Some (Lit 0, rest)
      | LPAREN :: rest =>
          match and_expression fuel rest with
          | Some (e, RPAREN :: rest') => Some (e, rest')
          | _ => None
          end
      | _ => None
      end
  end
with equality_rest (fuel : nat) (lhs : cexpr) (ts : list token)
    : option (cexpr * list token) :=
  match fuel with
  | O => None
  | S fuel =>
      match ts with
      | EQEQ :: rest =>
          match primary fuel rest with
          | Some (rhs, rest') => equality_rest fuel (Eq lhs rhs) rest'
          | None => None
          end
      | NOTEQ :: rest =>
          match primary fuel rest with
          | Some (rhs, rest') => equality_rest fuel (Ne lhs rhs) rest'
          | None => None
          end
      | _ => Some (lhs, ts)
      end
  end
with equality_expression (fuel : nat) (ts : list token)
    : option (cexpr * list token) :=
  match fuel with
  | O => None
  | S fuel =>
      match primary fuel ts with
      | Some (lhs, rest) => equality_rest fuel lhs rest
      | None => None
      end
  end
with and_rest (fuel : nat) (lhs : cexpr) (ts : list token)
    : option (cexpr * list token) :=
  match fuel with
  | O => None
  | S fuel =>
      match ts with
      | AMP :: rest =>
          match equality_expression fuel rest with
          | Some (rhs, rest') => and_rest fuel (BitAnd lhs rhs) rest'
          | None => None
          end
      | _ => Some (lhs, ts)
      end
  end
with and_expression (fuel : nat) (ts : list token)
    : option (cexpr * list token) :=
  match fuel with
  | O => None
  | S fuel =>
      match equality_expression fuel ts with
      | Some (lhs, rest) => and_rest fuel lhs rest
      | None => None
      end
  end.

(** The expression a whole condition is read as. *)
Definition parse (ts : list token) : option cexpr :=
  match and_expression (5 * length ts + 5) ts with
  | Some (e, []) => Some e
  | _ => None
  end.

(** The expression an argument is read as when it is a primary expression
    on its own: a name, a constant, or an expression in parentheses. *)
Definition parse_primary (ts : list token) : option cexpr :=
  match primary (5 * length ts + 5) ts with
  | Some (e, []) => Some e
  | _ => None
  end.

(** The value of an expression; [==] and [!=] give 1 or 0. *)
Fixpoint value (env : string -> Z) (e : cexpr) : Z :=
  match e with
  | Var x => env x
  | Lit n => n
  | Eq a b => if Z.eqb (value env a) (value env b) then 1 else 0
  | Ne a b => if Z.eqb (value env a) (value env b) then 0 else 1
  | BitAnd a b => Z.land (value env a) (value env b)
  end.

(** Whether [if (ts)] takes its branch; a text that is no expression takes
    none. *)
Definition taken (env : string -> Z) (ts : list token) : bool :=
  match parse ts with
  | Some e => negb (Z.eqb (value env e) 0)
  | None => false
  end.

End Cond.

(* ===================================================================== *)
(** ** Bodies, arguments and states for the examples                     *)
(* ===================================================================== *)

Module Examples.

(** [{ globalThis.done = 1; return 7; }] *)
Definition body_store_then_return : JS.stmt :=
  JS.seq (JS.assign "done" (JS.Number 1)) (JS.return_ (JS.Number 7)).

(** [{ return; }]: an explicit return of [undefined]. *)
Definition body_return_undefined : JS.stmt := JS.return_ JS.Undefined.

(** [done = 1;] in C. *)
Definition set_done : C.stmt := fun s =>
  (C.Next, C.mkState (C.err_indicator s) (C.console s) (C.heap s)
             (<["done" := 1]> (C.vars s))).

(** [rc = -1;] as the cleanup of a function. *)
Definition set_rc : C.stmt := fun s =>
  (C.Next, C.mkState (C.err_indicator s) (C.console s) (C.heap s)
             (<["rc" := -1]> (C.vars s))).

(** The variables [flags = 2] and [mask = 2]. *)
Definition env_2_2 : string -> Z := fun _ => 2.

End Examples.

(* ===================================================================== *)
(** ** Properties of the EM_JS wrappers                                  *)
(* ===================================================================== *)

Module JSFacts.
Import JS.
Local Open Scope js_scope.

Section Wrappers.

Variable handle_js_error : value -> stmt.

(** Nothing runs after a [throw]. *)
Lemma throw_seq (e : value) (rest : stmt) (s : state) :
  (throw e ;; rest) s = (Throw e, s).
Proof. reflexivity. Qed.

(** Both catch blocks end at their first statement. *)
Lemma catch_REF_rethrows (e : value) (s : state) :
  catch_REF handle_js_error e s = (Throw e, s).
Proof. unfold catch_REF. apply throw_seq. Qed.

Lemma catch_NUM_rethrows (e : value) (s : state) :
  catch_NUM handle_js_error e s = (Throw e, s).
Proof. unfold catch_NUM. apply throw_seq. Qed.

(** The [try]/[catch] of either wrapper ends the way the body does. *)
Lemma try_catch_REF_transparent (body : stmt) (s : state) :
  try_catch body (catch_REF handle_js_error) s = body s.
Proof.
  unfold try_catch.
  destruct (body s) as [[ | v | e] s'];
    [reflexivity | reflexivity | apply catch_REF_rethrows].
Qed.

Lemma try_catch_NUM_transparent (body : stmt) (s : state) :
  try_catch body (catch_NUM handle_js_error) s = body s.
Proof.
  unfold try_catch.
  destruct (body s) as [[ | v | e] s'];
    [reflexivity | reflexivity | apply catch_NUM_rethrows].
Qed.

(** The three ways a call of an [EM_JS_REF] function ends. *)
Lemma call_EM_JS_REF (body : stmt) (s : state) :
  call (EM_JS_REF handle_js_error body) s =
  match body s with
  | (Normal, s') =>
      (Raised (Error "Assertion error: control reached end of function without return"), s')
  | (Return v, s') => (Returned v, s')
  | (Throw e, s') => (Raised e, s')
  end.
Proof.
  unfold call, EM_JS_REF, seq. rewrite try_catch_REF_transparent.
  destruct (body s) as [[ | v | e] s']; reflexivity.
Qed.

(** The three ways a call of an [EM_JS_NUM] function ends. *)
Lemma call_EM_JS_NUM (body : stmt) (s : state) :
  call (EM_JS_NUM handle_js_error body) s =
  match body s with
  | (Normal, s') => (Returned (Number 0), s')
  | (Return v, s') => (Returned v, s')
  | (Throw e, s') => (Raised e, s')
  end.
Proof.
  unfold call, EM_JS_NUM, seq. rewrite try_catch_NUM_transparent.
  destruct (body s) as [[ | v | e] s']; reflexivity.
Qed.

(** Claim C1, as amended.  When the body throws [e], a call of the
    wrapped function ends by raising [e], in both variants: it returns no
    value, so neither the sentinel [0] of [EM_JS_REF] nor the status [-1]
    of [EM_JS_NUM] reaches the caller. *)
Theorem EM_JS_throwing_body_raises (body : stmt) (s s' : state) (e : value) :
  body s = (Throw e, s') ->
  fst (call (EM_JS_REF handle_js_error body) s) = Raised e /\
  fst (call (EM_JS_NUM handle_js_error body) s) = Raised e /\
  (forall v, fst (call (EM_JS_REF handle_js_error body) s) <> Returned v) /\
  (forall v, fst (call (EM_JS_NUM handle_js_error body) s) <> Returned v).
Proof.
  intros Hbody. rewrite call_EM_JS_REF, call_EM_JS_NUM, Hbody. cbn.
  repeat split; congruence.
Qed.

(** Claim C2.  When the body throws [e], the catch block of either
    variant ends at its first statement by throwing [e] again, and the
    call raises [e] in the very state the body left.  This holds for
    every implementation of [Module.handle_js_error]: the hand-off and
    the [return] after it are not run. *)
Theorem EM_JS_catch_rethrows_without_hand_off
    (body : stmt) (s s' : state) (e : value) :
  body s = (Throw e, s') ->
  catch_REF handle_js_error e s' = (Throw e, s') /\
  catch_NUM handle_js_error e s' = (Throw e, s') /\
  call (EM_JS_REF handle_js_error body) s = (Raised e, s') /\
  call (EM_JS_NUM handle_js_error body) s = (Raised e, s').
Proof.
  intros Hbody. split; [apply catch_REF_rethrows | ].
  split; [apply catch_NUM_rethrows | ].
  rewrite call_EM_JS_REF, call_EM_JS_NUM, Hbody. split; reflexivity.
Qed.

(** Claim C5, as amended.  Under [EM_JS_REF], a body that runs to its end
    without a [return] and without throwing makes the call raise the
    error "Assertion error: control reached end of function without
    return"; the call returns no value. *)
Theorem EM_JS_REF_end_of_body_traps (body : stmt) (s s' : state) :
  body s = (Normal, s') ->
  call (EM_JS_REF handle_js_error body) s =
    (Raised (Error "Assertion error: control reached end of function without return"), s').
Proof.
  intros Hbody. rewrite call_EM_JS_REF, Hbody. reflexivity.
Qed.

(** Claim C6.  Under [EM_JS_NUM], a body that runs to its end without a
    [return] and without throwing makes the call return [0], in the state
    the body left. *)
Theorem EM_JS_NUM_end_of_body_returns_0 (body : stmt) (s s' : state) :
  body s = (Normal, s') ->
  call (EM_JS_NUM handle_js_error body) s = (Returned (Number 0), s').
Proof.
  intros Hbody. rewrite call_EM_JS_NUM, Hbody. reflexivity.
Qed.

End Wrappers.

(** Claim C1 as stated fails: with a body that throws, the [EM_JS_REF]
    function does not return [0] and the [EM_JS_NUM] function does not
    return [-1]. *)
Lemma EM_JS_throwing_body_returns_no_sentinel :
  body_boom empty_state = (Throw (Error "boom"), empty_state) /\
  fst (call (EM_JS_REF record_hand_off body_boom) empty_state)
    <> Returned (Number 0) /\
  fst (call (EM_JS_NUM record_hand_off body_boom) empty_state)
    <> Returned (Number (-1)).
Proof. repeat split; discriminate. Qed.

Lemma EM_JS_throwing_body_raises_witness :
  body_boom empty_state = (Throw (Error "boom"), empty_state) /\
  fst (call (EM_JS_REF record_hand_off body_boom) empty_state)
    = Raised (Error "boom") /\
  fst (call (EM_JS_NUM record_hand_off body_boom) empty_state)
    = Raised (Error "boom").
Proof.
  split; [reflexivity | ].
  pose proof (EM_JS_throwing_body_raises record_hand_off body_boom
                empty_state empty_state (Error "boom") eq_refl) as H.
  split; [exact (proj1 H) | exact (proj1 (proj2 H))].
Defined.

Lemma EM_JS_catch_rethrows_without_hand_off_witness :
  body_store_then_throw empty_state = (Throw (Str "late"), state_done) /\
  call (EM_JS_REF record_hand_off body_store_then_throw) empty_state
    = (Raised (Str "late"), state_done) /\
  call (EM_JS_NUM record_hand_off body_store_then_throw) empty_state
    = (Raised (Str "late"), state_done) /\
  handed_off state_done = [].
Proof.
  split; [reflexivity | ].
  pose proof (EM_JS_catch_rethrows_without_hand_off record_hand_off
                body_store_then_throw empty_state state_done (Str "late")
                eq_refl) as H.
  split; [exact (proj1 (proj2 (proj2 H))) | ].
  split; [exact (proj2 (proj2 (proj2 H))) | reflexivity].
Defined.

(** Claim C5 as stated fails for [EM_JS_NUM]: a body that runs to its end
    makes the call return [0], it raises nothing. *)
Lemma EM_JS_NUM_end_of_body_does_not_trap :
  body_store empty_state = (Normal, state_done) /\
  fst (call (EM_JS_NUM record_hand_off body_store) empty_state)
    = Returned (Number 0) /\
  ~ (exists e, fst (call (EM_JS_NUM record_hand_off body_store) empty_state)
               = Raised e).
Proof.
  split; [reflexivity | ]. split; [reflexivity | ].
  intros [e He]. discriminate He.
Qed.

Lemma EM_JS_REF_end_of_body_traps_witness :
  body_store empty_state = (Normal, state_done) /\
  call (EM_JS_REF record_hand_off body_store) empty_state =
    (Raised (Error "Assertion error: control reached end of function without return"),
     state_done).
Proof.
  split; [reflexivity | ].
  apply (EM_JS_REF_end_of_body_traps record_hand_off body_store
           empty_state state_done).
  reflexivity.
Defined.

Lemma EM_JS_NUM_end_of_body_returns_0_witness :
  body_store empty_state = (Normal, state_done) /\
  call (EM_JS_NUM record_hand_off body_store) empty_state
    = (Returned (Number 0), state_done).
Proof.
  split; [reflexivity | ].
  apply (EM_JS_NUM_end_of_body_returns_0 record_hand_off body_store
           empty_state state_done).
  reflexivity.
Defined.

End JSFacts.

(* ===================================================================== *)
(** ** Properties of the failure macros                                  *)
(* ===================================================================== *)

Module CFacts.
Import C.

Lemma state_eta (s : state) :
  mkState (err_indicator s) (console s) (heap s) (vars s) = s.
Proof. destruct s; reflexivity. Qed.

Lemma logged_nil (s : state) : logged [] s = s.
Proof. unfold logged. rewrite app_nil_r. apply state_eta. Qed.

(** [malloc] never gives [NULL] nor a block in use. *)
Lemma malloc_address_fresh (h : gmap Z string) :
  malloc_address h <> NULL /\ h !! malloc_address h = None.
Proof.
  unfold malloc_address.
  pose proof (is_fresh ({[ NULL ]} ∪ dom h)) as Hfresh.
  split.
  - intros Heq. apply Hfresh, elem_of_union_l, elem_of_singleton. exact Heq.
  - apply not_elem_of_dom. set_solver.
Qed.

(** A block that is allocated and then freed leaves the heap as it was. *)
Lemma free_asprintf_heap (text : string) (h : gmap Z string) :
  delete (malloc_address h) (<[malloc_address h := text]> h) = h.
Proof. apply delete_insert_id, malloc_address_fresh. Qed.

Section Macros.

Variable log_error_status : string -> errcode.
Variable at_ : site.

(** The statements of the [DEBUG_F] body of [FAIL()], run in order: one
    message is given to [log_error], the block of the message is freed,
    and control jumps to [finally] whatever status [log_error] gave. *)
Lemma FAIL_DEBUG_F_run (s : state) :
  FAIL log_error_status true at_ s = (Goto "finally", logged [message at_] s).
Proof.
  unfold FAIL, do_while_0, bind, asprintf, seq, eval, log_error, free, goto,
    string_at, logged.
  cbn. rewrite lookup_insert_eq. cbn.
  rewrite free_asprintf_heap. reflexivity.
Qed.

Lemma FAIL_plain_run (s : state) :
  FAIL log_error_status false at_ s = (Goto "finally", s).
Proof. reflexivity. Qed.

Variable DEBUG_F : bool.

(** [FAIL()] in either build. *)
Lemma FAIL_run (s : state) :
  FAIL log_error_status DEBUG_F at_ s =
  (Goto "finally", logged (if DEBUG_F then [message at_] else []) s).
Proof.
  destruct DEBUG_F.
  - apply FAIL_DEBUG_F_run.
  - rewrite logged_nil. apply FAIL_plain_run.
Qed.

(** The three guarded macros, for any argument expression: the argument
    is evaluated once, then [FAIL()] runs or nothing does. *)
Lemma FAIL_IF_NULL_run (ref : expr pointer) (s : state) :
  FAIL_IF_NULL log_error_status DEBUG_F at_ ref s =
  if Z.eqb (fst (ref s)) NULL
  then FAIL log_error_status DEBUG_F at_ (snd (ref s))
  else (Next, snd (ref s)).
Proof.
  unfold FAIL_IF_NULL, do_while_0, if_, eq_NULL.
  destruct (ref s) as [p s']. cbn [fst snd].
  destruct (Z.eqb p NULL); [ | reflexivity].
  rewrite FAIL_run. reflexivity.
Qed.

Lemma FAIL_IF_MINUS_ONE_run (num : expr Z) (s : state) :
  FAIL_IF_MINUS_ONE log_error_status DEBUG_F at_ num s =
  if Z.eqb (fst (num s)) 0
  then (Next, snd (num s))
  else FAIL log_error_status DEBUG_F at_ (snd (num s)).
Proof.
  unfold FAIL_IF_MINUS_ONE, do_while_0, if_, ne_0.
  destruct (num s) as [n s']. cbn [fst snd].
  destruct (Z.eqb n 0); cbn [negb]; [reflexivity | ].
  rewrite FAIL_run. reflexivity.
Qed.

Lemma FAIL_IF_ERR_OCCURRED_run (s : state) :
  FAIL_IF_ERR_OCCURRED log_error_status DEBUG_F at_ s =
  if Z.eqb (err_indicator s) NULL
  then (Next, s)
  else FAIL log_error_status DEBUG_F at_ s.
Proof.
  unfold FAIL_IF_ERR_OCCURRED, do_while_0, if_, truth, PyErr_Occurred.
  destruct (Z.eqb (err_indicator s) NULL); cbn [negb]; [reflexivity | ].
  rewrite FAIL_run. reflexivity.
Qed.

(** In a function [{ FAIL(); rest  finally: cleanup }] the statements
    after [FAIL()] are skipped and the cleanup runs. *)
Lemma FAIL_reaches_cleanup (rest cleanup : stmt) (s : state) :
  with_finally (seq (FAIL log_error_status DEBUG_F at_) rest) cleanup s =
  cleanup (logged (if DEBUG_F then [message at_] else []) s).
Proof. unfold with_finally, seq. rewrite FAIL_run. reflexivity. Qed.

(** Claim C3.  The header documents [FAIL_IF_MINUS_ONE(num)] as
    "FAIL() if num == -1"; the macro as written jumps to [finally] on the
    status [1] as well, in every build and every state. *)
Theorem FAIL_IF_MINUS_ONE_jumps_on_1 (s : state) :
  fst (FAIL_IF_MINUS_ONE log_error_status DEBUG_F at_ (const 1) s)
    = Goto "finally" /\
  1 <> -1.
Proof.
  rewrite FAIL_IF_MINUS_ONE_run, FAIL_run. cbn. split; [reflexivity | lia].
Qed.

(** Claim C4.  [FAIL_IF_MINUS_ONE(num)] jumps to [finally] exactly when
    [num] is not zero; on [0] it does nothing. *)
Theorem FAIL_IF_MINUS_ONE_iff_nonzero (num : Z) (s : state) :
  (fst (FAIL_IF_MINUS_ONE log_error_status DEBUG_F at_ (const num) s)
     = Goto "finally" <-> num <> 0) /\
  FAIL_IF_MINUS_ONE log_error_status DEBUG_F at_ (const 0) s = (Next, s).
Proof.
  rewrite !FAIL_IF_MINUS_ONE_run, FAIL_run. cbn [const fst snd].
  split; [ | reflexivity].
  destruct (Z.eqb_spec num 0) as [-> | Hne]; cbn [fst].
  - split; [discriminate | intros H; now elim H].
  - split; [intros _; exact Hne | reflexivity].
Qed.

(** Claim C7.  [FAIL_IF_NULL(ref)] jumps to [finally] exactly when [ref]
    is [NULL]; on any other pointer it does nothing. *)
Theorem FAIL_IF_NULL_iff_NULL (ref : pointer) (s : state) :
  (fst (FAIL_IF_NULL log_error_status DEBUG_F at_ (const ref) s)
     = Goto "finally" <-> ref = NULL) /\
  (ref <> NULL ->
   FAIL_IF_NULL log_error_status DEBUG_F at_ (const ref) s = (Next, s)).
Proof.
  rewrite FAIL_IF_NULL_run, FAIL_run. cbn [const fst snd].
  destruct (Z.eqb_spec ref NULL) as [-> | Hne]; cbn [fst].
  - split; [split; reflexivity | intros H; now elim H].
  - split; [split; [discriminate | intros H; now elim Hne] | reflexivity].
Qed.

End Macros.

(** Claim C10.  Without [DEBUG_F]: [FAIL()] jumps to [finally] in the
    state it started in; each guarded macro evaluates its argument once,
    jumps or goes on according to the value, and ends in the state the
    evaluation of the argument left, which is the starting state for an
    argument without side effects and for [FAIL_IF_ERR_OCCURRED()].  No
    message is logged, no block allocated, the error indicator and the
    variables keep their values. *)
Theorem failure_macros_without_DEBUG_F
    (log_error_status : string -> errcode) (at_ : site)
    (ref : expr pointer) (num : expr Z) (p : pointer) (n : Z) (s : state) :
  FAIL log_error_status false at_ s = (Goto "finally", s) /\
  FAIL_IF_NULL log_error_status false at_ ref s =
    (if Z.eqb (fst (ref s)) NULL then Goto "finally" else Next, snd (ref s)) /\
  FAIL_IF_MINUS_ONE log_error_status false at_ num s =
    (if Z.eqb (fst (num s)) 0 then Next else Goto "finally", snd (num s)) /\
  FAIL_IF_ERR_OCCURRED log_error_status false at_ s =
    (if Z.eqb (err_indicator s) NULL then Next else Goto "finally", s) /\
  snd (FAIL_IF_NULL log_error_status false at_ (const p) s) = s /\
  snd (FAIL_IF_MINUS_ONE log_error_status false at_ (const n) s) = s.
Proof.
  rewrite !FAIL_IF_NULL_run, !FAIL_IF_MINUS_ONE_run, FAIL_IF_ERR_OCCURRED_run.
  rewrite !FAIL_plain_run. cbn [const fst snd].
  split; [reflexivity | ].
  split; [destruct (Z.eqb (fst (ref s)) NULL); reflexivity | ].
  split; [destruct (Z.eqb (fst (num s)) 0); reflexivity | ].
  split; [destruct (Z.eqb (err_indicator s) NULL); reflexivity | ].
  split; [destruct (Z.eqb p NULL); reflexivity | ].
  destruct (Z.eqb n 0); reflexivity.
Qed.

(** Claim C8.  In the build without [DEBUG_F], the one in which the macros
    are C statements: [FAIL_IF_ERR_OCCURRED()] jumps to [finally] exactly
    when the error indicator is set at the call, and whether it jumps or
    not the state is the one it started in; the error indicator keeps its
    value. *)
Theorem FAIL_IF_ERR_OCCURRED_iff_error_set
    (log_error_status : string -> errcode) (at_ : site) (s : state) :
  let r := FAIL_IF_ERR_OCCURRED log_error_status false at_ s in
  (fst r = Goto "finally" <-> err_indicator s <> NULL) /\
  snd r = s /\
  err_indicator (snd r) = err_indicator s.
Proof.
  cbv zeta. rewrite FAIL_IF_ERR_OCCURRED_run, FAIL_plain_run.
  destruct (Z.eqb_spec (err_indicator s) NULL) as [Heq | Hne]; cbn [fst snd].
  - split; [ | split; reflexivity].
    split; [discriminate | intros Hne; now elim Hne].
  - split; [ | split; reflexivity].
    split; [intros _; exact Hne | reflexivity].
Qed.

(** *** Concrete runs *)

Lemma FAIL_IF_NULL_iff_NULL_witness :
  4096 <> NULL /\
  FAIL_IF_NULL status_0 true site_42 (const 4096) state_err = (Next, state_err).
Proof.
  assert (H : 4096 <> NULL) by discriminate.
  split; [exact H | ].
  exact (proj2 (FAIL_IF_NULL_iff_NULL status_0 site_42 true 4096 state_err) H).
Defined.

Lemma FAIL_IF_MINUS_ONE_iff_nonzero_witness :
  -1 <> 0 /\
  fst (FAIL_IF_MINUS_ONE status_0 true site_42 (const (-1)) state_err)
    = Goto "finally".
Proof.
  assert (H : -1 <> 0) by discriminate.
  split; [exact H | ].
  exact (proj2 (proj1 (FAIL_IF_MINUS_ONE_iff_nonzero
                         status_0 site_42 true (-1) state_err)) H).
Defined.

End CFacts.

(* ===================================================================== *)
(** ** The text of [FAIL()] under [DEBUG_F]                              *)
(* ===================================================================== *)

Module CppFacts.
Import Cpp.

(** Claim C9.  Under [DEBUG_F] the replacement list of [FAIL()] ends its
    block with [goto finally] followed at once by the closing brace: the
    jump statement has no semicolon, so [FAIL();] is not a C statement and
    no function that uses a failure macro compiles in that build.  The
    replacement list without [DEBUG_F] takes its semicolon from the call. *)
Theorem FAIL_DEBUG_F_goto_lacks_semicolon :
  goto_statements_complete (FAIL_statement true) = false /\
  after_goto_label (FAIL_statement true) = Some RBRACE /\
  goto_statements_complete (FAIL_statement false) = true /\
  after_goto_label (FAIL_statement false) = Some SEMI.
Proof. repeat split; reflexivity. Qed.

End CppFacts.


(* ===================================================================== *)
(** ** More on the EM_JS wrappers                                        *)
(* ===================================================================== *)

Module JSMore.
Import JS.

(** X1.  An explicit [return] passes through both wrappers: when the body,
    run inside the wrapper, returns [v] and leaves the state [s'], the call
    of the wrapped function returns [v] in [s'].  The [catch] does not see
    the return and the last statement of the wrapper is not reached. *)
Theorem EM_JS_explicit_return_passes_through
    (handle_js_error : value -> stmt) (body : stmt) (s s' : state) (v : value) :
  body s = (Return v, s') ->
  call (EM_JS_REF handle_js_error body) s = (Returned v, s') /\
  call (EM_JS_NUM handle_js_error body) s = (Returned v, s').
Proof.
  intros Hbody.
  rewrite JSFacts.call_EM_JS_REF, JSFacts.call_EM_JS_NUM, Hbody.
  split; reflexivity.
Qed.

(** X2.  The hand-off is dead code for every body, whatever way it ends:
    two implementations of [Module.handle_js_error] give the same call, and
    the state after the call is the state the body left, the wrappers add
    no effect of their own. *)
Theorem EM_JS_hand_off_never_runs
    (h1 h2 : value -> stmt) (body : stmt) (s : state) :
  call (EM_JS_REF h1 body) s = call (EM_JS_REF h2 body) s /\
  call (EM_JS_NUM h1 body) s = call (EM_JS_NUM h2 body) s /\
  snd (call (EM_JS_REF h1 body) s) = snd (body s) /\
  snd (call (EM_JS_NUM h1 body) s) = snd (body s).
Proof.
  rewrite !JSFacts.call_EM_JS_REF, !JSFacts.call_EM_JS_NUM.
  destruct (body s) as [[ | v | e] s']; repeat split; reflexivity.
Qed.

(** X3.  Where a returned value comes from.  A value returned by an
    [EM_JS_REF] function was returned by a [return] of the body.  A value
    returned by an [EM_JS_NUM] function was returned by a [return] of the
    body, or it is the [0] given when the body ran to its end. *)
Theorem EM_JS_returned_value_origin
    (handle_js_error : value -> stmt) (body : stmt) (s s' : state) (v : value) :
  (call (EM_JS_REF handle_js_error body) s = (Returned v, s') ->
   body s = (Return v, s')) /\
  (call (EM_JS_NUM handle_js_error body) s = (Returned v, s') ->
   body s = (Return v, s') \/ (v = Number 0 /\ body s = (Normal, s'))).
Proof.
  rewrite JSFacts.call_EM_JS_REF, JSFacts.call_EM_JS_NUM.
  destruct (body s) as [[ | w | e] t]; split; intros Hcall;
    try discriminate Hcall.
  - right. injection Hcall as <- <-. split; reflexivity.
  - injection Hcall as <- <-. reflexivity.
  - left. injection Hcall as <- <-. reflexivity.
Qed.

(** X4.  The two wrappers differ on one kind of body only, the body that
    runs to its end: there the [EM_JS_REF] function raises and the
    [EM_JS_NUM] function returns; on every other body the two calls are
    equal. *)
Theorem EM_JS_REF_and_NUM_differ_only_at_end_of_body
    (handle_js_error : value -> stmt) (body : stmt) (s : state) :
  call (EM_JS_REF handle_js_error body) s
    = call (EM_JS_NUM handle_js_error body) s
  <-> fst (body s) <> Normal.
Proof.
  rewrite JSFacts.call_EM_JS_REF, JSFacts.call_EM_JS_NUM.
  destruct (body s) as [[ | v | e] s']; cbn [fst]; split.
  - intros Heq. discriminate Heq.
  - intros Hend. now elim Hend.
  - intros _. discriminate.
  - reflexivity.
  - intros _. discriminate.
  - reflexivity.
Qed.

Lemma EM_JS_explicit_return_passes_through_witness :
  Examples.body_store_then_return empty_state
    = (Return (Number 7), state_done) /\
  call (EM_JS_REF record_hand_off Examples.body_store_then_return) empty_state
    = (Returned (Number 7), state_done) /\
  call (EM_JS_NUM record_hand_off Examples.body_store_then_return) empty_state
    = (Returned (Number 7), state_done).
Proof.
  assert (H : Examples.body_store_then_return empty_state
              = (Return (Number 7), state_done)) by reflexivity.
  split; [exact H | ].
  exact (EM_JS_explicit_return_passes_through record_hand_off
           Examples.body_store_then_return empty_state state_done
           (Number 7) H).
Defined.

Lemma EM_JS_returned_value_origin_witness :
  call (EM_JS_REF record_hand_off Examples.body_return_undefined) empty_state
    = (Returned Undefined, empty_state) /\
  Examples.body_return_undefined empty_state = (Return Undefined, empty_state).
Proof.
  assert (H : call (EM_JS_REF record_hand_off Examples.body_return_undefined)
                empty_state = (Returned Undefined, empty_state))
    by reflexivity.
  split; [exact H | ].
  exact (proj1 (EM_JS_returned_value_origin record_hand_off
                  Examples.body_return_undefined empty_state empty_state
                  Undefined) H).
Defined.

Lemma EM_JS_REF_and_NUM_differ_only_at_end_of_body_witness :
  fst (body_boom empty_state) <> Normal /\
  call (EM_JS_REF record_hand_off body_boom) empty_state
    = call (EM_JS_NUM record_hand_off body_boom) empty_state.
Proof.
  assert (H : fst (body_boom empty_state) <> Normal) by discriminate.
  split; [exact H | ].
  exact (proj2 (EM_JS_REF_and_NUM_differ_only_at_end_of_body record_hand_off
                  body_boom empty_state) H).
Defined.

End JSMore.

(* ===================================================================== *)
(** ** More on the failure macros                                        *)
(* ===================================================================== *)

Module CMore.
Import C.

(** X7.  In a function [{ CHECK; rest  finally: cleanup }] a check that
    fails skips [rest], whatever it is, and runs the cleanup in the state
    the check left; a check that passes runs [rest] and then the cleanup as
    if the check were not there, but for the side effects of its
    argument. *)
Theorem failed_check_skips_to_cleanup
    (log_error_status : string -> errcode) (DEBUG_F : bool) (at_ : site)
    (ref : expr pointer) (num : expr Z) (rest cleanup : stmt) (s : state) :
  let fail_log := if DEBUG_F then [message at_] else [] in
  with_finally (seq (FAIL_IF_NULL log_error_status DEBUG_F at_ ref) rest)
               cleanup s
    = (if Z.eqb (fst (ref s)) NULL
       then cleanup (logged fail_log (snd (ref s)))
       else with_finally rest cleanup (snd (ref s))) /\
  with_finally (seq (FAIL_IF_MINUS_ONE log_error_status DEBUG_F at_ num) rest)
               cleanup s
    = (if Z.eqb (fst (num s)) 0
       then with_finally rest cleanup (snd (num s))
       else cleanup (logged fail_log (snd (num s)))) /\
  with_finally (seq (FAIL_IF_ERR_OCCURRED log_error_status DEBUG_F at_) rest)
               cleanup s
    = (if Z.eqb (err_indicator s) NULL
       then with_finally rest cleanup s
       else cleanup (logged fail_log s)).
Proof.
  cbv zeta. unfold with_finally, seq.
  rewrite CFacts.FAIL_IF_NULL_run, CFacts.FAIL_IF_MINUS_ONE_run,
    CFacts.FAIL_IF_ERR_OCCURRED_run, !CFacts.FAIL_run.
  split; [ | split].
  - destruct (Z.eqb (fst (ref s)) NULL); reflexivity.
  - destruct (Z.eqb (fst (num s)) 0); reflexivity.
  - destruct (Z.eqb (err_indicator s) NULL); reflexivity.
Qed.

(** [{ FAIL_IF_ERR_OCCURRED(); done = 1;  finally: rc = -1; }] with the
    indicator set: [done] is not written, [rc] is. *)
Example failed_check_skips_to_cleanup_run :
  vars (snd (with_finally
               (seq (FAIL_IF_ERR_OCCURRED status_0 false site_42)
                    Examples.set_done)
               Examples.set_rc state_err))
  = <["rc" := -1]> (<["rc" := 1]> ∅).
Proof. reflexivity. Qed.

End CMore.

(* ===================================================================== *)
(** ** How the conditions of the guarded macros are read                 *)
(* ===================================================================== *)

Module CondFacts.
Import Cond.
Local Open Scope list_scope.

(** More fuel does not change a result. *)
Lemma fuel_step (fuel : nat) :
  (forall ts r, primary fuel ts = Some r -> primary (S fuel) ts = Some r) /\
  (forall lhs ts r, equality_rest fuel lhs ts = Some r ->
                    equality_rest (S fuel) lhs ts = Some r) /\
  (forall ts r, equality_expression fuel ts = Some r ->
                equality_expression (S fuel) ts = Some r) /\
  (forall lhs ts r, and_rest fuel lhs ts = Some r ->
                    and_rest (S fuel) lhs ts = Some r) /\
  (forall ts r, and_expression fuel ts = Some r ->
                and_expression (S fuel) ts = Some r).
Proof.
  induction fuel as [ | fuel (IHp & IHer & IHe & IHar & IHa)].
  - repeat split; intros; discriminate.
  - split; [ | split; [ | split; [ | split]]].
    + intros ts r H. cbn in H.
      destruct ts as [ | [x | n | | | | | | ] rest]; try discriminate H;
        try exact H.
      destruct (and_expression fuel rest) as [[e [ | t rest']] | ] eqn:Hin;
        try discriminate H.
      destruct t; try discriminate H.
      change (primary (S (S fuel)) (LPAREN :: rest))
        with (match and_expression (S fuel) rest with
              | Some (e, RPAREN :: rest') => Some (e, rest')
              | _ => None
              end).
      rewrite (IHa _ _ Hin). exact H.
    + intros lhs ts r H. cbn in H.
      destruct ts as [ | [x | n | | | | | | ] rest]; try exact H.
      * destruct (primary fuel rest) as [[rhs rest'] | ] eqn:Hin;
          try discriminate H.
        change (equality_rest (S (S fuel)) lhs (EQEQ :: rest))
          with (match primary (S fuel) rest with
                | Some (rhs, rest') => equality_rest (S fuel) (Eq lhs rhs) rest'
                | None => None
                end).
        rewrite (IHp _ _ Hin). apply IHer. exact H.
      * destruct (primary fuel rest) as [[rhs rest'] | ] eqn:Hin;
          try discriminate H.
        change (equality_rest (S (S fuel)) lhs (NOTEQ :: rest))
          with (match primary (S fuel) rest with
                | Some (rhs, rest') => equality_rest (S fuel) (Ne lhs rhs) rest'
                | None => None
                end).
        rewrite (IHp _ _ Hin). apply IHer. exact H.
    + intros ts r H. cbn in H.
      destruct (primary fuel ts) as [[lhs rest] | ] eqn:Hin;
        try discriminate H.
      change (equality_expression (S (S fuel)) ts)
        with (match primary (S fuel) ts with
              | Some (lhs, rest) => equality_rest (S fuel) lhs rest
              | None => None
              end).
      rewrite (IHp _ _ Hin). apply IHer. exact H.
    + intros lhs ts r H. cbn in H.
      destruct ts as [ | [x | n | | | | | | ] rest]; try exact H.
      destruct (equality_expression fuel rest) as [[rhs rest'] | ] eqn:Hin;
        try discriminate H.
      change (and_rest (S (S fuel)) lhs (AMP :: rest))
        with (match equality_expression (S fuel) rest with
              | Some (rhs, rest') => and_rest (S fuel) (BitAnd lhs rhs) rest'
              | None => None
              end).
      rewrite (IHe _ _ Hin). apply IHar. exact H.
    + intros ts r H. cbn in H.
      destruct (equality_expression fuel ts) as [[lhs rest] | ] eqn:Hin;
        try discriminate H.
      change (and_expression (S (S fuel)) ts)
        with (match equality_expression (S fuel) ts with
              | Some (lhs, rest) => and_rest (S fuel) lhs rest
              | None => None
              end).
      rewrite (IHe _ _ Hin). apply IHar. exact H.
Qed.

Lemma primary_more_fuel (fuel extra : nat) (ts : list token)
    (r : cexpr * list token) :
  primary fuel ts = Some r -> primary (extra + fuel) ts = Some r.
Proof.
  intros H. induction extra as [ | extra IH]; [exact H | ].
  apply (proj1 (fuel_step (extra + fuel))). exact IH.
Qed.

(** Tokens added after a text do not change how far the reading of the
    text went, when that reading stopped at a token of the text; a primary
    expression is read the same in any case. *)
Lemma reading_stops_where_it_stopped (suffix : list token) (fuel : nat) :
  (forall ts e r, primary fuel ts = Some (e, r) ->
                  primary fuel (ts ++ suffix) = Some (e, r ++ suffix)) /\
  (forall lhs ts e r, r <> [] -> equality_rest fuel lhs ts = Some (e, r) ->
      equality_rest fuel lhs (ts ++ suffix) = Some (e, r ++ suffix)) /\
  (forall ts e r, r <> [] -> equality_expression fuel ts = Some (e, r) ->
      equality_expression fuel (ts ++ suffix) = Some (e, r ++ suffix)) /\
  (forall lhs ts e r, r <> [] -> and_rest fuel lhs ts = Some (e, r) ->
      and_rest fuel lhs (ts ++ suffix) = Some (e, r ++ suffix)) /\
  (forall ts e r, r <> [] -> and_expression fuel ts = Some (e, r) ->
      and_expression fuel (ts ++ suffix) = Some (e, r ++ suffix)).
Proof.
  induction fuel as [ | fuel (IHp & IHer & IHe & IHar & IHa)].
  - repeat split; intros; discriminate.
  - split; [ | split; [ | split; [ | split]]].
    + intros ts e r H. cbn in H.
      destruct ts as [ | [x | n | | | | | | ] rest]; try discriminate H;
        try (injection H as <- <-; reflexivity).
      destruct (and_expression fuel rest) as [[e' [ | t rest']] | ] eqn:Hin;
        try discriminate H.
      destruct t; try discriminate H.
      injection H as <- <-.
      assert (Hne : RPAREN :: rest' <> []) by discriminate.
      cbn. rewrite (IHa _ _ _ Hne Hin). reflexivity.
    + intros lhs ts e r Hr H. cbn in H.
      destruct ts as [ | [x | n | | | | | | ] rest];
        try (injection H as <- <-; reflexivity).
      * injection H as <- <-. now elim Hr.
      * destruct (primary fuel rest) as [[rhs rest'] | ] eqn:Hin;
          try discriminate H.
        cbn. rewrite (IHp _ _ _ Hin). apply IHer; assumption.
      * destruct (primary fuel rest) as [[rhs rest'] | ] eqn:Hin;
          try discriminate H.
        cbn. rewrite (IHp _ _ _ Hin). apply IHer; assumption.
    + intros ts e r Hr H. cbn in H.
      destruct (primary fuel ts) as [[lhs rest] | ] eqn:Hin;
        try discriminate H.
      cbn. rewrite (IHp _ _ _ Hin). apply IHer; assumption.
    + intros lhs ts e r Hr H. cbn in H.
      destruct ts as [ | [x | n | | | | | | ] rest];
        try (injection H as <- <-; reflexivity).
      * injection H as <- <-. now elim Hr.
      * destruct (equality_expression fuel rest) as [[rhs rest'] | ] eqn:Hin;
          try discriminate H.
        cbn.
        destruct rest' as [ | t rest'].
        -- destruct fuel; cbn in H; [discriminate H | ].
           injection H as <- <-. now elim Hr.
        -- assert (Hne : t :: rest' <> []) by discriminate.
           rewrite (IHe _ _ _ Hne Hin). apply IHar; assumption.
    + intros ts e r Hr H. cbn in H.
      destruct (equality_expression fuel ts) as [[lhs rest] | ] eqn:Hin;
        try discriminate H.
      cbn. destruct rest as [ | t rest].
      * destruct fuel; cbn in H; [discriminate H | ].
        injection H as <- <-. now elim Hr.
      * assert (Hne : t :: rest <> []) by discriminate.
        rewrite (IHe _ _ _ Hne Hin). apply IHar; assumption.
Qed.

(** A primary expression followed by [op rhs], with [op] one of [==] and
    [!=] and [rhs] a constant, is read as the comparison of the whole
    primary expression. *)
Lemma comparison_of_primary (fuel : nat) (arg : list token) (e : cexpr) (n : Z) :
  primary fuel arg = Some (e, []) ->
  and_expression (S (S (S (S fuel)))) (arg ++ [EQEQ; KW_NULL])
    = Some (Eq e (Lit 0), []) /\
  and_expression (S (S (S (S fuel)))) (arg ++ [NOTEQ; INT n])
    = Some (Ne e (Lit n), []).
Proof.
  intros Hprimary.
  apply (primary_more_fuel fuel 2) in Hprimary. cbn [Nat.add] in Hprimary.
  split.
  - apply (proj1 (reading_stops_where_it_stopped [EQEQ; KW_NULL] _))
      in Hprimary.
    change (and_expression (S (S (S (S fuel)))) (arg ++ [EQEQ; KW_NULL]))
      with (match equality_expression (S (S (S fuel))) (arg ++ [EQEQ; KW_NULL])
            with
            | Some (lhs, rest) => and_rest (S (S (S fuel))) lhs rest
            | None => None
            end).
    change (equality_expression (S (S (S fuel))) (arg ++ [EQEQ; KW_NULL]))
      with (match primary (S (S fuel)) (arg ++ [EQEQ; KW_NULL]) with
            | Some (lhs, rest) => equality_rest (S (S fuel)) lhs rest
            | None => None
            end).
    rewrite Hprimary. reflexivity.
  - apply (proj1 (reading_stops_where_it_stopped [NOTEQ; INT n] _))
      in Hprimary.
    change (and_expression (S (S (S (S fuel)))) (arg ++ [NOTEQ; INT n]))
      with (match equality_expression (S (S (S fuel))) (arg ++ [NOTEQ; INT n])
            with
            | Some (lhs, rest) => and_rest (S (S (S fuel))) lhs rest
            | None => None
            end).
    change (equality_expression (S (S (S fuel))) (arg ++ [NOTEQ; INT n]))
      with (match primary (S (S fuel)) (arg ++ [NOTEQ; INT n]) with
            | Some (lhs, rest) => equality_rest (S (S fuel)) lhs rest
            | None => None
            end).
    rewrite Hprimary. reflexivity.
Qed.

(** X9.  An argument that is a primary expression on its own (a name, a
    constant, an expression in parentheses) is tested as a whole:
    [FAIL_IF_NULL] compares its value with [NULL] and [FAIL_IF_MINUS_ONE]
    with [0], as the combinators [C.eq_NULL] and [C.ne_0] of the embedding
    do.  Putting the argument in parentheses is always enough. *)
Theorem primary_argument_is_tested_whole
    (arg : list token) (e : cexpr) (env : string -> Z) (s : C.state) :
  parse_primary arg = Some e ->
  parse (FAIL_IF_NULL_condition arg) = Some (Eq e (Lit 0)) /\
  parse (FAIL_IF_MINUS_ONE_condition arg) = Some (Ne e (Lit 0)) /\
  taken env (FAIL_IF_NULL_condition arg)
    = fst (C.eq_NULL (C.const (value env e)) s) /\
  taken env (FAIL_IF_MINUS_ONE_condition arg)
    = fst (C.ne_0 (C.const (value env e)) s).
Proof.
  unfold parse_primary. intros Hprimary.
  destruct (primary (5 * length arg + 5) arg) as [[e' [ | t r]] | ] eqn:Hp;
    try discriminate Hprimary.
  injection Hprimary as ->.
  apply (primary_more_fuel _ 6) in Hp.
  destruct (comparison_of_primary _ arg e 0 Hp) as [Hnull Hzero].
  assert (Hfuel : forall suffix : list token, length suffix = 2%nat ->
            (5 * length (arg ++ suffix) + 5
             = S (S (S (S (6 + (5 * length arg + 5))))))%nat).
  { intros suffix Hlen. rewrite length_app, Hlen. lia. }
  assert (Hparse_null : parse (FAIL_IF_NULL_condition arg) = Some (Eq e (Lit 0))).
  { unfold parse, FAIL_IF_NULL_condition.
    rewrite (Hfuel [EQEQ; KW_NULL] eq_refl), Hnull. reflexivity. }
  assert (Hparse_zero :
            parse (FAIL_IF_MINUS_ONE_condition arg) = Some (Ne e (Lit 0))).
  { unfold parse, FAIL_IF_MINUS_ONE_condition.
    rewrite (Hfuel [NOTEQ; INT 0] eq_refl), Hzero. reflexivity. }
  split; [exact Hparse_null | ]. split; [exact Hparse_zero | ].
  unfold taken. rewrite Hparse_null, Hparse_zero.
  cbn [value C.eq_NULL C.ne_0 C.const fst]. unfold C.NULL.
  destruct (Z.eqb (value env e) 0); split; reflexivity.
Qed.

Lemma primary_argument_is_tested_whole_witness :
  parse_primary [LPAREN; ID "x"; AMP; ID "m"; RPAREN]
    = Some (BitAnd (Var "x") (Var "m")) /\
  parse (FAIL_IF_MINUS_ONE_condition [LPAREN; ID "x"; AMP; ID "m"; RPAREN])
    = Some (Ne (BitAnd (Var "x") (Var "m")) (Lit 0)).
Proof.
  assert (H : parse_primary [LPAREN; ID "x"; AMP; ID "m"; RPAREN]
              = Some (BitAnd (Var "x") (Var "m"))) by reflexivity.
  split; [exact H | ].
  exact (proj1 (proj2 (primary_argument_is_tested_whole
                         [LPAREN; ID "x"; AMP; ID "m"; RPAREN]
                         (BitAnd (Var "x") (Var "m")) Examples.env_2_2
                         C.empty_state H))).
Defined.

(** [x & 1] is not zero exactly when [x] is odd. *)
Lemma land_1_nonzero (x : Z) : Z.land x 1 <> 0 <-> Z.odd x = true.
Proof.
  change 1 with (Z.ones 1). rewrite Z.land_ones by lia.
  change (2 ^ 1) with 2. rewrite Zmod_odd.
  destruct (Z.odd x); split; intros H; try reflexivity; try discriminate.
  now elim H.
Qed.

(** X8.  The parameter [num] stands in [num != 0] without parentheses, and
    [!=] binds tighter than [&].  So [FAIL_IF_MINUS_ONE(x & m)] tests
    [x & (m != 0)]: it fails exactly when [x] is odd and [m] is not zero,
    not when [x & m] is not zero.  With the argument in parentheses the
    test is the one meant. *)
Theorem FAIL_IF_MINUS_ONE_of_bit_test
    (x m : string) (env : string -> Z) :
  parse (FAIL_IF_MINUS_ONE_condition [ID x; AMP; ID m])
    = Some (BitAnd (Var x) (Ne (Var m) (Lit 0))) /\
  (taken env (FAIL_IF_MINUS_ONE_condition [ID x; AMP; ID m]) = true
     <-> Z.odd (env x) = true /\ env m <> 0) /\
  parse (FAIL_IF_MINUS_ONE_condition [LPAREN; ID x; AMP; ID m; RPAREN])
    = Some (Ne (BitAnd (Var x) (Var m)) (Lit 0)) /\
  (taken env (FAIL_IF_MINUS_ONE_condition [LPAREN; ID x; AMP; ID m; RPAREN])
     = true <-> Z.land (env x) (env m) <> 0).
Proof.
  split; [reflexivity | ]. split; [ | split; [reflexivity | ]].
  - unfold taken. cbn.
    destruct (Z.eqb_spec (env m) 0) as [Hm | Hm].
    + rewrite Z.land_0_r. cbn. split; [discriminate | ].
      intros [_ Hne]. now elim Hne.
    + rewrite negb_true_iff, Z.eqb_neq, land_1_nonzero.
      split; [intros Hodd; split; assumption | intros [Hodd _]; exact Hodd].
  - unfold taken. cbn.
    destruct (Z.eqb_spec (Z.land (env x) (env m)) 0) as [H0 | H0]; cbn.
    + split; [discriminate | intros Hne; now elim Hne].
    + split; [intros _; exact H0 | reflexivity].
Qed.

(** With [x = 2] and [m = 2] the bit is set, [x & m] is 2, and the check
    [FAIL_IF_MINUS_ONE(x & m)] passes all the same. *)
Example FAIL_IF_MINUS_ONE_of_bit_test_2_2 :
  Z.land (Examples.env_2_2 "x") (Examples.env_2_2 "m") = 2 /\
  taken Examples.env_2_2 (FAIL_IF_MINUS_ONE_condition [ID "x"; AMP; ID "m"])
    = false /\
  taken Examples.env_2_2
        (FAIL_IF_MINUS_ONE_condition [LPAREN; ID "x"; AMP; ID "m"; RPAREN])
    = true.
Proof. repeat split; reflexivity. Qed.

End CondFacts.
